(** * The camelcase rule (lib/rules/camelcase.js)

    A shallow embedding of the rule's helpers ([isUnderscored],
    [removeUnderscore], [report]) and of its [Identifier] handler, followed by
    the properties of the rule that are proved about them.

    Conventions of the embedding:
    - identifier text is ASCII; [toUpperCase] maps [a]-[z] to [A]-[Z] and
      leaves every other character alone, as String.prototype.toUpperCase
      does on ASCII text;
    - the syntax tree is a table of nodes; a node reference is its index in
      the table, so that [===] on nodes is equality of indices;
    - reading a property of [undefined] (a TypeError in the source) is [None]
      in the option monad. *)

From Stdlib Require Import ZArith Ascii String.
From stdpp Require Import base option list strings.

Local Open Scope string_scope.
Local Open Scope Z_scope.

(** ** Strings *)

Module Str.

Definition is_us (c : ascii) : bool := Ascii.eqb c "_"%char.

(** String.prototype.toUpperCase on one ASCII character. *)
Definition upper_ascii (c : ascii) : ascii :=
  let n := nat_of_ascii c in
  if (Nat.leb 97 n && Nat.leb n 122)%bool then ascii_of_nat (n - 32) else c.

(** String.prototype.toUpperCase. *)
Fixpoint toUpperCase (s : string) : string :=
  match s with
  | EmptyString => EmptyString
  | String c r => String (upper_ascii c) (toUpperCase r)
  end.

(** String.prototype.indexOf, searching from position [i]: the first
    position at which [pat] occurs, [-1] when there is none. *)
Fixpoint indexOf_from (s pat : string) (i : Z) : Z :=
  if String.prefix pat s then i
  else match s with
       | EmptyString => -1
       | String _ r => indexOf_from r pat (i + 1)
       end.

Definition indexOf (s pat : string) : Z := indexOf_from s pat 0.

(** [true] when every character is an underscore. *)
Fixpoint all_us (s : string) : bool :=
  match s with
  | EmptyString => true
  | String c r => is_us c && all_us r
  end.

(** [true] when no character is an underscore. *)
Fixpoint no_us (s : string) : bool :=
  match s with
  | EmptyString => true
  | String c r => negb (is_us c) && no_us r
  end.

(** The greedy run [_*] at the head of [s]. *)
Fixpoint leading_us (s : string) : string :=
  match s with
  | String c r => if is_us c then String c (leading_us r) else EmptyString
  | EmptyString => EmptyString
  end.

(** [s] without the run [_*] at its head. *)
Fixpoint drop_leading_us (s : string) : string :=
  match s with
  | String c r => if is_us c then drop_leading_us r else s
  | EmptyString => EmptyString
  end.

(** [/^_+/.exec(text)]: the match is anchored at position 0 and takes the
    whole run of underscores there; no match when the run is empty. *)
Definition exec_prefix (text : string) : option string :=
  match leading_us text with
  | EmptyString => None
  | m => Some m
  end.

(** [/_+$/.exec(text)]: the leftmost position from which the text is a
    non-empty run of underscores up to its end. *)
Fixpoint exec_suffix (text : string) : option string :=
  match text with
  | EmptyString => None
  | String c r =>
      if is_us c && all_us r then Some text else exec_suffix r
  end.

(** The [_+$] alternative of the global replace: the text up to the
    leftmost position from which only underscores follow. *)
Fixpoint drop_trailing_us (s : string) : string :=
  match s with
  | EmptyString => EmptyString
  | String c r =>
      if is_us c && all_us r then EmptyString
      else String c (drop_trailing_us r)
  end.

(** [text.replace(/^_+|_+$/g, "")]: [^_+] can only match at position 0,
    where it removes the leading run; from the character after it on, only
    [_+$] can match, and it removes the trailing run. *)
Definition replace_private (text : string) : string :=
  drop_trailing_us (drop_leading_us text).

End Str.

(** ** Helpers of the rule *)

(** Checks if a string contains an underscore and isn't all upper-case. *)
Definition isUnderscored (name : string) : bool :=
  (Str.indexOf name "_" >? -1)%Z && negb (String.eqb name (Str.toUpperCase name)).

(** The [for] loop of [removeUnderscore], on the characters of [targetText]
    that remain to be read. *)
Fixpoint removeUnderscore_loop (targetText newText : string)
    (wasUnderscore : bool) : string :=
  match targetText with
  | EmptyString => newText
  | String c rest =>
      let str := String c EmptyString in
      if String.eqb str "_" then removeUnderscore_loop rest newText true
      else if wasUnderscore then
        removeUnderscore_loop rest (newText +:+ Str.toUpperCase str) false
      else removeUnderscore_loop rest (newText +:+ str) wasUnderscore
  end.

(** Removes underscores in the given text; a character that follows an
    underscore is uppercased. *)
Definition removeUnderscore (text : string) : string :=
  let privateFlagPrefix :=
    if bool_decide (is_Some (Str.exec_prefix text))
    then default "" (Str.exec_prefix text) else "" in
  let privateFlagSuffix :=
    if bool_decide (is_Some (Str.exec_suffix text))
    then default "" (Str.exec_suffix text) else "" in
  let targetText := Str.replace_private text in
  let newText := removeUnderscore_loop targetText "" false in
  privateFlagPrefix +:+ (newText +:+ privateFlagSuffix).

(** ** Syntax tree *)

(** A node of the tree, with the properties the rule reads. A property the
    node does not have is [None] ([undefined]); a child or the parent is a
    reference into the table of nodes. [text] is the slice of source text the
    node spans, which is what [sourceCode.getText] returns for it. *)
Record Node := mkNode {
  type : string;
  name : option string;
  parent : option nat;
  object : option nat;
  property : option nat;
  left : option nat;
  right : option nat;
  key : option nat;
  value : option nat;
  local : option nat;
  text : string
}.

Definition Tree := list Node.

(** Dereference: [r.f] for an optional reference [r]. *)
Definition deref (h : Tree) (r : option nat) : option Node :=
  i ← r; h !! i.

(** Array.prototype.indexOf: the first position of [x], [-1] when absent. *)
Fixpoint array_indexOf_from {A} `{EqDecision A} (l : list A) (x : A) (i : Z) : Z :=
  match l with
  | [] => -1
  | y :: r => if decide (y = x) then i else array_indexOf_from r x (i + 1)
  end.

Definition array_indexOf {A} `{EqDecision A} (l : list A) (x : A) : Z :=
  array_indexOf_from l x 0.

(** ** Reports *)

(** What [context.report] receives: the node, the message template, its data
    and the text the fix would put in place of the node. *)
Record Violation := mkViolation {
  v_node : nat;
  v_message : string;
  v_data_name : option string;
  v_fix : string
}.

(** The state of one traversal: the [reported] array of the rule and the
    violations handed to [context.report] so far. *)
Record Traversal := mkTraversal {
  reported : list nat;
  sink : list Violation
}.

Definition start : Traversal := mkTraversal [] [].

Definition ALLOWED_PARENT_TYPES : list string :=
  ["CallExpression"; "NewExpression"].

Definition ALLOWED_PARENT_TYPES_has (t : string) : bool :=
  bool_decide (t ∈ ALLOWED_PARENT_TYPES).

(** Reports an AST node as a rule violation, once. *)
Definition report (node : nat) (nd : Node) (st : Traversal) : Traversal :=
  if (array_indexOf (reported st) node <? 0)%Z then
    mkTraversal
      (reported st ++ [node])
      (sink st ++
       [mkViolation node "Identifier '{{name}}' is not in camel case."
          (name nd) (removeUnderscore (text nd))])
  else st.

(** [context.options[0].properties], normalised: anything but ["never"] is
    ["always"]. *)
Definition properties_of (option0 : option string) : string :=
  let properties := default "" option0 in
  if negb (String.eqb properties "always") && negb (String.eqb properties "never")
  then "always" else properties.

(** ** The handler *)

(** The right operand of the [else if] of the member branch, after
    [effectiveParent.type === "AssignmentExpression" && isUnderscored(name)]:
    [right.type !== "MemberExpression" ||
     left.type === "MemberExpression" && left.property.name === node.name]. *)
Definition assignment_side (h : Tree) (ep : Node) (nm : string) : option bool :=
  r ← deref h (right ep);
  if negb (String.eqb (type r) "MemberExpression") then Some true
  else
    l ← deref h (left ep);
    if String.eqb (type l) "MemberExpression" then
      pr ← deref h (property l);
      Some (bool_decide (name pr = Some nm))
    else Some false.

(** [node.parent.parent && node.parent.parent.type === "ObjectPattern" &&
     node.parent.key === node && node.parent.value !== node] *)
Definition pattern_key_only (h : Tree) (p : Node) (node : nat) : option bool :=
  match parent p with
  | None => Some false
  | Some g =>
      gp ← h !! g;
      Some (String.eqb (type gp) "ObjectPattern"
            && bool_decide (key p = Some node)
            && negb (bool_decide (value p = Some node)))
  end.

(** [node.parent.local && node.parent.local.name === node.name &&
     isUnderscored(name)] *)
Definition import_local (h : Tree) (p : Node) (nm name_ : string) : option bool :=
  match local p with
  | None => Some false
  | Some l =>
      ln ← h !! l;
      Some (bool_decide (name ln = Some nm) && isUnderscored name_)
  end.

(** The [Identifier] handler of the rule, called by the host on each
    identifier node it visits. [None] is a TypeError. *)
Definition Identifier (properties : string) (h : Tree) (node : nat)
    (st : Traversal) : option Traversal :=
  nd ← h !! node;
  nm ← name nd;
  let name_ := Str.replace_private nm in
  p ← deref h (parent nd);
  let effectiveParent :=
    if String.eqb (type p) "MemberExpression" then parent p else parent nd in
  if String.eqb (type p) "MemberExpression" then
    if String.eqb properties "never" then Some st
    else
      o ← deref h (object p);
      if String.eqb (type o) "Identifier"
         && bool_decide (name o = Some nm)
         && isUnderscored name_
      then Some (report node nd st)
      else
        ep ← deref h effectiveParent;
        if String.eqb (type ep) "AssignmentExpression" && isUnderscored name_
        then
          side ← assignment_side h ep nm;
          if (side : bool) then Some (report node nd st) else Some st
        else Some st
  else if String.eqb (type p) "Property" then
    if String.eqb properties "never" then Some st
    else
      skip ← pattern_key_only h p node;
      if (skip : bool) then Some st
      else if isUnderscored name_ then
        ep ← deref h effectiveParent;
        if negb (ALLOWED_PARENT_TYPES_has (type ep))
        then Some (report node nd st) else Some st
      else Some st
  else if (0 <=? array_indexOf
                   ["ImportSpecifier"; "ImportNamespaceSpecifier";
                    "ImportDefaultSpecifier"] (type p))%Z then
    imp ← import_local h p nm name_;
    if (imp : bool) then Some (report node nd st) else Some st
  else if isUnderscored name_ then
    ep ← deref h effectiveParent;
    if negb (ALLOWED_PARENT_TYPES_has (type ep))
    then Some (report node nd st) else Some st
  else Some st.

(** The rule as [create] returns it: the handler under the normalised
    option. *)
Definition create (option0 : option string) : Tree → nat → Traversal → option Traversal :=
  Identifier (properties_of option0).

(** One traversal: the host calls the handler on the identifier nodes in the
    order it visits them; a TypeError ends it. *)
Fixpoint traverse (properties : string) (h : Tree) (visits : list nat)
    (st : Traversal) : option Traversal :=
  match visits with
  | [] => Some st
  | n :: rest => st' ← Identifier properties h n st; traverse properties h rest st'
  end.

(** The sequence of [report] calls of a traversal, on its own. *)
Definition report_all (calls : list (nat * Node)) (st : Traversal) : Traversal :=
  foldl (λ s c, report c.1 c.2 s) st calls.

(** The types of node the import branch of the handler is for. *)
Definition import_type (t : string) : Prop :=
  t = "ImportSpecifier" ∨ t = "ImportNamespaceSpecifier" ∨ t = "ImportDefaultSpecifier".

(** The invariant of a traversal: the violations handed over are those of
    the nodes of [reported], in order, and no node is there twice. *)
Definition recorded_once (st : Traversal) : Prop :=
  v_node <$> sink st = reported st ∧ NoDup (reported st).

(** ** Sample trees

    The trees the parser builds for the programs of the specification, node
    by node; a node's position in the list is its reference. *)

Definition other (ty : string) (par : option nat) : Node :=
  mkNode ty None par None None None None None None None "".

Definition identifier (nm : string) (par : nat) : Node :=
  mkNode "Identifier" (Some nm) (Some par) None None None None None None None nm.

Definition memberExpression (par obj prop : nat) : Node :=
  mkNode "MemberExpression" None (Some par) (Some obj) (Some prop)
    None None None None None "".

Definition assignmentExpression (par l r : nat) : Node :=
  mkNode "AssignmentExpression" None (Some par) None None (Some l) (Some r)
    None None None "".

Definition propertyNode (par k v : nat) : Node :=
  mkNode "Property" None (Some par) None None None None (Some k) (Some v) None "".

Definition importSpecifier (par loc : nat) : Node :=
  mkNode "ImportSpecifier" None (Some par) None None None None None None (Some loc) "".

(** [foo({my_option: 1})] *)
Definition call_with_object : Tree :=
  [ other "Program" None;                 (* 0 *)
    other "ExpressionStatement" (Some 0%nat); (* 1 *)
    other "CallExpression" (Some 1%nat);  (* 2 *)
    identifier "foo" 2;                   (* 3 *)
    other "ObjectExpression" (Some 2%nat);(* 4 *)
    propertyNode 4 6 7;                   (* 5 *)
    identifier "my_option" 5;             (* 6 *)
    other "Literal" (Some 5%nat) ].       (* 7 *)

(** [const cfg = {my_option: 1}] *)
Definition declared_object : Tree :=
  [ other "Program" None;
    other "VariableDeclaration" (Some 0%nat);
    other "VariableDeclarator" (Some 1%nat);
    identifier "cfg" 2;
    other "ObjectExpression" (Some 2%nat);
    propertyNode 4 6 7;
    identifier "my_option" 5;
    other "Literal" (Some 5%nat) ].

(** [obj.prop = 5], for a property named [prop] *)
Definition assign_to_member (prop : string) : Tree :=
  [ other "Program" None;
    other "ExpressionStatement" (Some 0%nat);
    assignmentExpression 1 3 6;           (* 2 *)
    memberExpression 2 4 5;               (* 3 *)
    identifier "obj" 3;                   (* 4 *)
    identifier prop 3;                    (* 5 *)
    other "Literal" (Some 2%nat) ].       (* 6 *)

(** [x = obj.prop], for a property named [prop] *)
Definition read_member (prop : string) : Tree :=
  [ other "Program" None;
    other "ExpressionStatement" (Some 0%nat);
    assignmentExpression 1 3 4;           (* 2 *)
    identifier "x" 2;                     (* 3 *)
    memberExpression 2 5 6;               (* 4 *)
    identifier "obj" 4;                   (* 5 *)
    identifier prop 4 ].                  (* 6 *)

(** [a.my_prop = b.my_prop] *)
Definition copy_member : Tree :=
  [ other "Program" None;
    other "ExpressionStatement" (Some 0%nat);
    assignmentExpression 1 3 6;           (* 2 *)
    memberExpression 2 4 5;               (* 3 *)
    identifier "a" 3;                     (* 4 *)
    identifier "my_prop" 3;               (* 5 *)
    memberExpression 2 7 8;               (* 6 *)
    identifier "b" 6;                     (* 7 *)
    identifier "my_prop" 6 ].             (* 8 *)

(** [({my_field} = obj)]: the shorthand entry has one identifier node, which
    is both its key and its value. *)
Definition shorthand_pattern : Tree :=
  [ other "Program" None;
    other "ExpressionStatement" (Some 0%nat);
    assignmentExpression 1 3 6;           (* 2 *)
    other "ObjectPattern" (Some 2%nat);   (* 3 *)
    propertyNode 3 5 5;                   (* 4 *)
    identifier "my_field" 4;              (* 5 *)
    identifier "obj" 2 ].                 (* 6 *)

(** [({my_field: field} = obj)] *)
Definition renaming_pattern : Tree :=
  [ other "Program" None;
    other "ExpressionStatement" (Some 0%nat);
    assignmentExpression 1 3 7;           (* 2 *)
    other "ObjectPattern" (Some 2%nat);   (* 3 *)
    propertyNode 3 5 6;                   (* 4 *)
    identifier "my_field" 4;              (* 5 *)
    identifier "field" 4;                 (* 6 *)
    identifier "obj" 2 ].                 (* 7 *)

(** [var my_var = {my_key: 1}] *)
Definition var_and_key : Tree :=
  [ other "Program" None;
    other "VariableDeclaration" (Some 0%nat);
    other "VariableDeclarator" (Some 1%nat);
    identifier "my_var" 2;                (* 3 *)
    other "ObjectExpression" (Some 2%nat);
    propertyNode 4 6 7;                   (* 5 *)
    identifier "my_key" 5;                (* 6 *)
    other "Literal" (Some 5%nat) ].

(** [import { my_export as myExport } from "m"] *)
Definition import_renamed : Tree :=
  [ other "Program" None;
    other "ImportDeclaration" (Some 0%nat);
    importSpecifier 1 4;                  (* 2 *)
    identifier "my_export" 2;             (* 3: imported *)
    identifier "myExport" 2;              (* 4: local *)
    other "Literal" (Some 1%nat) ].

(** [import { my_export } from "m"]: one identifier node is both the
    imported and the local name. *)
Definition import_plain : Tree :=
  [ other "Program" None;
    other "ImportDeclaration" (Some 0%nat);
    importSpecifier 1 3;                  (* 2 *)
    identifier "my_export" 2;             (* 3 *)
    other "Literal" (Some 1%nat) ].

(** [var MAX_VALUE = 1] *)
Definition constant_declared : Tree :=
  [ other "Program" None;
    other "VariableDeclaration" (Some 0%nat);
    other "VariableDeclarator" (Some 1%nat);
    identifier "MAX_VALUE" 2;             (* 3 *)
    other "Literal" (Some 2%nat) ].

(** The violation the rule reports for an identifier node named [nm]. *)
Definition violation (node : nat) (nm : string) : Violation :=
  mkViolation node "Identifier '{{name}}' is not in camel case."
    (Some nm) (removeUnderscore nm).

(** [do_something(my_arg)] *)
Definition call_of_underscored : Tree :=
  [ other "Program" None;
    other "ExpressionStatement" (Some 0%nat);
    other "CallExpression" (Some 1%nat);  (* 2 *)
    identifier "do_something" 2;          (* 3 *)
    identifier "my_arg" 2 ].              (* 4 *)

(** [x = my_obj.prop] *)
Definition underscored_object : Tree :=
  [ other "Program" None;
    other "ExpressionStatement" (Some 0%nat);
    assignmentExpression 1 3 4;           (* 2 *)
    identifier "x" 2;                     (* 3 *)
    memberExpression 2 5 6;               (* 4 *)
    identifier "my_obj" 4;                (* 5 *)
    identifier "prop" 4 ].                (* 6 *)

(** A text without its underscores, to say what the loop of
    [removeUnderscore] keeps. *)
Fixpoint remove_underscores (s : string) : string :=
  match s with
  | EmptyString => EmptyString
  | String c r =>
      if Str.is_us c then remove_underscores r else String c (remove_underscores r)
  end.

(** The message of the rule. *)
Definition camelcase_message : string :=
  "Identifier '{{name}}' is not in camel case.".

(** The traversal [st] once the violation of [node] is recorded: the node
    is last in [reported], and the host has received, last, the violation
    with the message of the rule, the name of the node as data and the
    rewritten source text of the node as fix. *)
Definition record_violation (node : nat) (nd : Node) (st : Traversal) : Traversal :=
  mkTraversal
    (reported st ++ [node])
    (sink st ++
     [mkViolation node camelcase_message (name nd) (removeUnderscore (text nd))]).

(** [({my_field = 1} = obj)]: the identifier [my_field] is one node, the key
    of the entry and the left-hand side of the default; the host sets its
    parent to the node it comes from at each visit. The tree at the visit of
    the key: *)
Definition default_pattern_at_key : Tree :=
  [ other "Program" None;
    other "ExpressionStatement" (Some 0%nat);
    assignmentExpression 1 3 8;           (* 2 *)
    other "ObjectPattern" (Some 2%nat);   (* 3 *)
    propertyNode 3 5 6;                   (* 4 *)
    identifier "my_field" 4;              (* 5 *)
    mkNode "AssignmentPattern" None (Some 4%nat) None None (Some 5%nat)
      (Some 7%nat) None None None "";     (* 6 *)
    other "Literal" (Some 6%nat);         (* 7 *)
    identifier "obj" 2 ].                 (* 8 *)

(** The same tree at the visit of the left-hand side of the default. *)
Definition default_pattern_at_value : Tree :=
  <[5%nat := identifier "my_field" 6]> default_pattern_at_key.

(** ** Facts about strings *)

Section StringFacts.

Implicit Types (s t u : string) (c : ascii).

Lemma app_cons c s t : String c s +:+ t = String c (s +:+ t).
Proof. reflexivity. Qed.

Lemma app_empty_l s : "" +:+ s = s.
Proof. reflexivity. Qed.

Lemma app_empty_r s : s +:+ "" = s.
Proof. induction s as [|c s IH]; [done|]. by rewrite app_cons, IH. Qed.

Lemma app_assoc' s t u : (s +:+ t) +:+ u = s +:+ (t +:+ u).
Proof. induction s as [|c s IH]; [done|]. by rewrite !app_cons, IH. Qed.

Lemma app_length s t : String.length (s +:+ t) = (String.length s + String.length t)%nat.
Proof. induction s as [|c s IH]; [done|]. rewrite app_cons. simpl. by rewrite IH. Qed.

Lemma one_char_eqb c : String.eqb (String c "") "_" = Str.is_us c.
Proof. unfold Str.is_us. simpl. by destruct (Ascii.eqb c "_"). Qed.

(** Upper-casing neither makes nor removes an underscore. *)
Lemma is_us_upper c : Str.is_us (Str.upper_ascii c) = Str.is_us c.
Proof. by destruct c as [[] [] [] [] [] [] [] []]. Qed.

Lemma all_us_app s t : Str.all_us (s +:+ t) = Str.all_us s && Str.all_us t.
Proof.
  induction s as [|c s IH]; [done|].
  rewrite app_cons. simpl. rewrite IH. by destruct (Str.is_us c).
Qed.

Lemma all_us_leading s : Str.all_us (Str.leading_us s) = true.
Proof.
  induction s as [|c s IH]; [done|]. simpl.
  by destruct (Str.is_us c) eqn:E; simpl; rewrite ?E.
Qed.

Lemma all_us_exec_suffix s t : Str.exec_suffix s = Some t → Str.all_us t = true.
Proof.
  induction s as [|c s IH]; [done|]. simpl.
  destruct (Str.is_us c && Str.all_us s) eqn:E; [|done].
  intros [= <-]. done.
Qed.

(** A string of underscores is its own leading run, and its trailing run
    when it is not empty. *)
Lemma leading_us_all s : Str.all_us s = true → Str.leading_us s = s.
Proof.
  induction s as [|c s IH]; [done|]. simpl.
  destruct (Str.is_us c); [|done]. simpl. intros H. by rewrite IH.
Qed.

Lemma drop_leading_us_all s : Str.all_us s = true → Str.drop_leading_us s = "".
Proof.
  induction s as [|c s IH]; [done|]. simpl.
  destruct (Str.is_us c); [|done]. done.
Qed.

Lemma drop_trailing_us_all s : Str.all_us s = true → Str.drop_trailing_us s = "".
Proof. destruct s as [|c s]; [done|]. simpl. by intros ->. Qed.

Lemma exec_suffix_all s :
  Str.all_us s = true → default "" (Str.exec_suffix s) = s.
Proof. destruct s as [|c s]; [done|]. simpl. by intros ->. Qed.

End StringFacts.

(** ** The rewriter *)

Section Rewriter.

Implicit Types (s t u p q m : string) (c : ascii) (w : bool).

(** The accumulator of the loop is a prefix of its result. *)
Lemma loop_acc t : ∀ acc w,
  removeUnderscore_loop t acc w = acc +:+ removeUnderscore_loop t "" w.
Proof.
  induction t as [|c t IH]; intros acc w.
  - simpl. by rewrite app_empty_r.
  - cbn [removeUnderscore_loop]. rewrite one_char_eqb.
    destruct (Str.is_us c); [apply IH|].
    destruct w.
    + rewrite (IH (acc +:+ _)), (IH ("" +:+ _)), app_empty_l. apply app_assoc'.
    + rewrite (IH (acc +:+ _)), (IH ("" +:+ _)), app_empty_l. apply app_assoc'.
Qed.

Lemma loop_cons_us c t w :
  Str.is_us c = true →
  removeUnderscore_loop (String c t) "" w = removeUnderscore_loop t "" true.
Proof. intros H. cbn [removeUnderscore_loop]. by rewrite one_char_eqb, H. Qed.

Lemma loop_cons_other c t w :
  Str.is_us c = false →
  removeUnderscore_loop (String c t) "" w =
  String (if w then Str.upper_ascii c else c) (removeUnderscore_loop t "" false).
Proof.
  intros H. cbn [removeUnderscore_loop]. rewrite one_char_eqb, H.
  destruct w; rewrite loop_acc; reflexivity.
Qed.

(** The loop leaves no underscore behind. *)
Lemma loop_no_us t : ∀ w, Str.no_us (removeUnderscore_loop t "" w) = true.
Proof.
  induction t as [|c t IH]; intros w; [done|].
  destruct (Str.is_us c) eqn:E.
  - rewrite loop_cons_us by done. apply IH.
  - rewrite loop_cons_other by done. simpl. rewrite IH.
    destruct w; by rewrite ?is_us_upper, E.
Qed.

(** Without an underscore to drop, the loop copies its input. *)
Lemma loop_id t : Str.no_us t = true → removeUnderscore_loop t "" false = t.
Proof.
  induction t as [|c t IH]; [done|]. simpl Str.no_us.
  destruct (Str.is_us c) eqn:E; [done|]. cbn [negb andb]. intros H.
  rewrite loop_cons_other by done. by rewrite IH.
Qed.

(** A run of underscores is dropped as a whole. *)
Lemma loop_run u t w :
  Str.all_us u = true → u ≠ "" →
  removeUnderscore_loop (u +:+ t) "" w = removeUnderscore_loop t "" true.
Proof.
  induction u as [|c u IH] in w |- *; [done|]. simpl Str.all_us.
  destruct (Str.is_us c) eqn:E; [|done]. cbn [andb]. intros Hu _.
  rewrite app_cons, loop_cons_us by done.
  destruct u as [|d u]; [done|]. by apply IH.
Qed.

Lemma loop_app_no_us s t :
  Str.no_us s = true →
  removeUnderscore_loop (s +:+ t) "" false = s +:+ removeUnderscore_loop t "" false.
Proof.
  induction s as [|c s IH]; [done|]. simpl Str.no_us.
  destruct (Str.is_us c) eqn:E; [done|]. cbn [negb andb]. intros H.
  rewrite !app_cons, loop_cons_other by done. by rewrite IH.
Qed.

(** A core is a non-empty text that neither starts nor ends with an
    underscore: the global replace leaves it as it is. *)
Lemma leading_us_core p m t :
  Str.all_us p = true → m ≠ "" → Str.drop_leading_us m = m →
  Str.leading_us (p +:+ (m +:+ t)) = p ∧ Str.drop_leading_us (p +:+ (m +:+ t)) = m +:+ t.
Proof.
  intros Hp Hm Hd. induction p as [|c p IH].
  - rewrite !app_empty_l. destruct m as [|d m]; [done|].
    simpl in Hd. rewrite app_cons. simpl.
    destruct (Str.is_us d) eqn:E; [|done].
    exfalso. clear -Hd.
    assert (∀ s, String.length (Str.drop_leading_us s) ≤ String.length s)%nat as Hle.
    { induction s as [|c s IH]; [done|]. simpl. destruct (Str.is_us c); simpl; lia. }
    specialize (Hle m). rewrite Hd in Hle. simpl in Hle. lia.
  - simpl in Hp. destruct (Str.is_us c) eqn:E; [|done]. simpl in Hp.
    destruct (IH Hp) as [IH1 IH2]. rewrite app_cons. simpl. rewrite E.
    by rewrite IH1, IH2.
Qed.

Lemma trailing_us_core m q :
  Str.all_us q = true → m ≠ "" → Str.drop_trailing_us m = m →
  Str.drop_trailing_us (m +:+ q) = m
  ∧ default "" (Str.exec_suffix (m +:+ q)) = q
  ∧ Str.all_us (m +:+ q) = false.
Proof.
  intros Hq. induction m as [|c m IH]; [done|]. intros _ Hd.
  simpl in Hd. destruct (Str.is_us c && Str.all_us m) eqn:E; [done|].
  injection Hd as Hd. rewrite app_cons. simpl.
  rewrite all_us_app, andb_assoc, E. simpl.
  destruct m as [|d m].
  - rewrite app_empty_l. simpl in E. rewrite andb_true_r in E.
    by rewrite drop_trailing_us_all, exec_suffix_all.
  - destruct IH as (-> & -> & _); done.
Qed.

Lemma exec_suffix_skip s t :
  Str.all_us t = false → Str.exec_suffix (s +:+ t) = Str.exec_suffix t.
Proof.
  intros H. induction s as [|c s IH]; [done|].
  rewrite app_cons. simpl. by rewrite all_us_app, H, !andb_false_r.
Qed.

Lemma privateFlagPrefix_eq s :
  (if bool_decide (is_Some (Str.exec_prefix s))
   then default "" (Str.exec_prefix s) else "") = Str.leading_us s.
Proof.
  unfold Str.exec_prefix. destruct (Str.leading_us s); [|done].
  case_bool_decide as H; [|done]. by destruct H.
Qed.

Lemma privateFlagSuffix_eq s :
  (if bool_decide (is_Some (Str.exec_suffix s))
   then default "" (Str.exec_suffix s) else "") = default "" (Str.exec_suffix s).
Proof.
  destruct (Str.exec_suffix s); case_bool_decide as H; try done.
  exfalso. apply H. by eexists.
Qed.

(** The rewriter on a text laid out as leading run, core, trailing run. *)
Lemma removeUnderscore_shape p m q :
  Str.all_us p = true → Str.all_us q = true →
  m ≠ "" → Str.drop_leading_us m = m → Str.drop_trailing_us m = m →
  removeUnderscore (p +:+ (m +:+ q)) =
  p +:+ (removeUnderscore_loop m "" false +:+ q).
Proof.
  intros Hp Hq Hm Hl Ht. unfold removeUnderscore.
  rewrite privateFlagPrefix_eq, privateFlagSuffix_eq.
  destruct (leading_us_core p m q Hp Hm Hl) as [-> Hdrop].
  destruct (trailing_us_core m q Hq Hm Ht) as (Hcore & Hsuf & Hnot).
  unfold Str.replace_private. rewrite Hdrop, Hcore.
  by rewrite exec_suffix_skip, Hsuf.
Qed.

(** A text without underscores, when not empty, is a core. *)
Lemma no_us_core m :
  Str.no_us m = true → Str.drop_leading_us m = m ∧ Str.drop_trailing_us m = m.
Proof.
  induction m as [|c m IH]; [done|]. simpl.
  destruct (Str.is_us c); [done|]. simpl. intros H.
  split; [done|]. by rewrite (proj2 (IH H)).
Qed.

(** The text handed to the loop is not empty when the input has a
    character other than the underscore, and then so is the loop's result. *)
Lemma loop_replace_private_nonempty s :
  Str.all_us s = false →
  removeUnderscore_loop (Str.replace_private s) "" false ≠ "".
Proof.
  intros H.
  assert (∃ c r, Str.drop_leading_us s = String c r ∧ Str.is_us c = false)
    as (c & r & Hs & Hc).
  { induction s as [|c s IH]; [done|]. simpl in *.
    destruct (Str.is_us c) eqn:E; [by apply IH|]. by exists c, s. }
  unfold Str.replace_private. rewrite Hs. cbn [Str.drop_trailing_us].
  rewrite Hc. cbn [andb]. by rewrite loop_cons_other.
Qed.

Lemma removeUnderscore_all_us s :
  Str.all_us s = true → removeUnderscore s = s +:+ s.
Proof.
  intros H. unfold removeUnderscore, Str.replace_private.
  rewrite privateFlagPrefix_eq, privateFlagSuffix_eq.
  by rewrite leading_us_all, exec_suffix_all, drop_leading_us_all.
Qed.

End Rewriter.

(** ** Properties of the rewriter *)

(** C5, as the source has it: the scan copies the characters that do not
    follow an underscore unchanged and uppercases the one that follows a
    dropped underscore, so that [FOO_bar] becomes [FOOBar]. *)
Theorem removeUnderscore_mixed_case :
  removeUnderscore "FOO_bar" = "FOOBar"
  ∧ (∀ s t : string, Str.no_us s = true →
       removeUnderscore_loop (s +:+ t) "" false =
       s +:+ removeUnderscore_loop t "" false)
  ∧ (∀ (c : ascii) (t : string) (w : bool), Str.is_us c = false →
       removeUnderscore_loop (String "_" (String c t)) "" w =
       String (Str.upper_ascii c) (removeUnderscore_loop t "" false)).
Proof.
  split; [reflexivity|]. split; [apply loop_app_no_us|].
  intros c t w Hc. rewrite loop_cons_us by done. by rewrite loop_cons_other.
Qed.

(** C5, as the claim states it, fails: the rewriter does not turn [FOO_bar]
    into [FOObar]. *)
Lemma removeUnderscore_FOO_bar_not_FOObar :
  removeUnderscore "FOO_bar" ≠ "FOObar".
Proof. by vm_compute. Qed.

(** C7: the rewriter keeps the leading and the trailing run of underscores,
    leaves no underscore in between, drops each inner run as a whole and
    uppercases the character after it; the four rewrites of the
    specification hold. *)
Theorem removeUnderscore_private_runs :
  removeUnderscore "_foo" = "_foo"
  ∧ removeUnderscore "foo_bar" = "fooBar"
  ∧ removeUnderscore "__private_name__" = "__privateName__"
  ∧ removeUnderscore "foo__bar" = "fooBar"
  ∧ (∀ p m q : string,
       Str.all_us p = true → Str.all_us q = true → m ≠ "" →
       Str.drop_leading_us m = m → Str.drop_trailing_us m = m →
       removeUnderscore (p +:+ (m +:+ q)) =
       p +:+ (removeUnderscore_loop m "" false +:+ q)
       ∧ Str.no_us (removeUnderscore_loop m "" false) = true)
  ∧ (∀ (a u b : string) (c : ascii),
       Str.no_us a = true → Str.all_us u = true → u ≠ "" →
       Str.is_us c = false →
       removeUnderscore_loop (a +:+ (u +:+ String c b)) "" false =
       a +:+ String (Str.upper_ascii c) (removeUnderscore_loop b "" false)).
Proof.
  do 4 (split; [reflexivity|]). split.
  - intros p m q Hp Hq Hm Hl Ht. split; [by apply removeUnderscore_shape|].
    apply loop_no_us.
  - intros a u b c Ha Hu Hne Hc.
    rewrite loop_app_no_us, loop_run by done. by rewrite loop_cons_other.
Qed.

(** C10: on a text with at least one character other than the underscore,
    rewriting twice is rewriting once. *)
Theorem removeUnderscore_idempotent (s : string) :
  Str.all_us s = false →
  removeUnderscore (removeUnderscore s) = removeUnderscore s.
Proof.
  intros Hs.
  assert (removeUnderscore s =
          Str.leading_us s +:+
          (removeUnderscore_loop (Str.replace_private s) "" false +:+
           default "" (Str.exec_suffix s))) as Hshape.
  { unfold removeUnderscore. by rewrite privateFlagPrefix_eq, privateFlagSuffix_eq. }
  rewrite Hshape.
  pose proof (loop_no_us (Str.replace_private s) false) as Hno.
  destruct (no_us_core _ Hno) as [Hl Ht].
  rewrite removeUnderscore_shape, loop_id; try done.
  - apply all_us_leading.
  - destruct (Str.exec_suffix s) eqn:E; [|done]. by apply all_us_exec_suffix in E.
  - by apply loop_replace_private_nonempty.
Qed.

Lemma removeUnderscore_idempotent_witness :
  removeUnderscore (removeUnderscore "__foo_bar_") = removeUnderscore "__foo_bar_".
Proof. apply removeUnderscore_idempotent. reflexivity. Defined.

(** The precondition of C10 is needed: a text of underscores only is
    doubled. *)
Lemma removeUnderscore_doubles (s : string) :
  Str.all_us s = true →
  String.length (removeUnderscore s) = (2 * String.length s)%nat.
Proof. intros H. rewrite removeUnderscore_all_us, app_length by done. lia. Qed.

Example removeUnderscore_not_idempotent :
  removeUnderscore "_" = "__" ∧ removeUnderscore "__" = "____".
Proof. split; reflexivity. Qed.

(** ** The underscore test *)

Section UnderscoreTest.

Implicit Types (s : string) (c : ascii).

Lemma prefix_underscore c s : String.prefix "_" (String c s) = Str.is_us c.
Proof.
  unfold Str.is_us. cbn [String.prefix].
  destruct (ascii_dec "_" c) as [<-|Hne].
  - by destruct s.
  - symmetry. apply Ascii.eqb_neq. congruence.
Qed.

Lemma indexOf_from_no_us s : ∀ i, Str.no_us s = true → Str.indexOf_from s "_" i = -1.
Proof.
  induction s as [|c s IH]; intros i; [done|].
  cbn [Str.no_us Str.indexOf_from]. rewrite prefix_underscore.
  destruct (Str.is_us c); [done|]. cbn [negb andb]. apply IH.
Qed.

(** A name without an underscore is not underscored. *)
Lemma isUnderscored_no_us s : Str.no_us s = true → isUnderscored s = false.
Proof.
  intros H. unfold isUnderscored, Str.indexOf. by rewrite indexOf_from_no_us.
Qed.

(** A name that is its own upper-casing is not underscored. *)
Lemma isUnderscored_upper s : Str.toUpperCase s = s → isUnderscored s = false.
Proof.
  intros H. unfold isUnderscored. rewrite H, String.eqb_refl.
  apply andb_false_r.
Qed.

Lemma all_us_upper s : Str.all_us (Str.toUpperCase s) = Str.all_us s.
Proof. induction s as [|c s IH]; [done|]. simpl. by rewrite is_us_upper, IH. Qed.

Lemma drop_leading_us_upper s :
  Str.drop_leading_us (Str.toUpperCase s) = Str.toUpperCase (Str.drop_leading_us s).
Proof.
  induction s as [|c s IH]; [done|]. simpl. rewrite is_us_upper.
  by destruct (Str.is_us c).
Qed.

Lemma drop_trailing_us_upper s :
  Str.drop_trailing_us (Str.toUpperCase s) = Str.toUpperCase (Str.drop_trailing_us s).
Proof.
  induction s as [|c s IH]; [done|]. simpl. rewrite is_us_upper, all_us_upper.
  destruct (Str.is_us c && Str.all_us s); [done|]. simpl. by rewrite IH.
Qed.

(** Stripping the private markers commutes with upper-casing. *)
Lemma replace_private_upper s :
  Str.replace_private (Str.toUpperCase s) = Str.toUpperCase (Str.replace_private s).
Proof.
  unfold Str.replace_private. by rewrite drop_leading_us_upper, drop_trailing_us_upper.
Qed.

(** The stripped name of a name that has no underscore, or that is all
    upper-case, is not underscored. *)
Lemma stripped_not_underscored s :
  Str.no_us s = true ∨ Str.toUpperCase s = s →
  isUnderscored (Str.replace_private s) = false.
Proof.
  intros [H|H].
  - apply isUnderscored_no_us. unfold Str.replace_private.
    destruct (no_us_core s H) as [-> ->]. done.
  - apply isUnderscored_upper. by rewrite <- replace_private_upper, H.
Qed.

End UnderscoreTest.

(** ** The [reported] array *)

Section Reported.

Implicit Types (st : Traversal).

Lemma array_indexOf_from_absent {A} `{EqDecision A} (l : list A) (x : A) :
  ∀ i, x ∉ l → array_indexOf_from l x i = -1.
Proof.
  induction l as [|y l IH]; intros i Hx; [done|].
  cbn [array_indexOf_from]. apply not_elem_of_cons in Hx as [Hne Hx].
  destruct (decide (y = x)); [congruence|]. by apply IH.
Qed.

Lemma array_indexOf_from_present {A} `{EqDecision A} (l : list A) (x : A) :
  ∀ i, x ∈ l → (i ≤ array_indexOf_from l x i)%Z.
Proof.
  induction l as [|y l IH]; intros i Hx; [by apply elem_of_nil in Hx|].
  cbn [array_indexOf_from]. destruct (decide (y = x)); [lia|].
  apply elem_of_cons in Hx as [->|Hx]; [done|].
  specialize (IH (i + 1) Hx). lia.
Qed.

(** [reported.indexOf(node) < 0] says that the node is not in the array. *)
Lemma indexOf_negative (l : list nat) (x : nat) :
  (array_indexOf l x <? 0) = bool_decide (x ∉ l).
Proof.
  unfold array_indexOf. case_bool_decide as H.
  - rewrite array_indexOf_from_absent by done. done.
  - pose proof (array_indexOf_from_present l x 0 H).
    apply Z.ltb_ge. lia.
Qed.

Lemma report_fresh node nd st :
  node ∉ reported st →
  report node nd st =
  mkTraversal (reported st ++ [node])
    (sink st ++ [mkViolation node "Identifier '{{name}}' is not in camel case."
                   (name nd) (removeUnderscore (text nd))]).
Proof. intros H. unfold report. by rewrite indexOf_negative, bool_decide_eq_true_2. Qed.

Lemma report_again node nd st : node ∈ reported st → report node nd st = st.
Proof.
  intros H. unfold report. rewrite indexOf_negative, bool_decide_eq_false_2; [done|].
  by intros Hn.
Qed.

Lemma recorded_once_start : recorded_once start.
Proof. split; [done|]. constructor. Qed.

Lemma recorded_once_report node nd st :
  recorded_once st → recorded_once (report node nd st).
Proof.
  intros [Hs Hd]. destruct (decide (node ∈ reported st)) as [Hin|Hout].
  - by rewrite report_again.
  - rewrite report_fresh by done. split; simpl.
    + by rewrite fmap_app, Hs.
    + apply NoDup_app. split_and!; [done| |apply NoDup_singleton].
      intros x Hx ->%list_elem_of_singleton. done.
Qed.

Lemma recorded_once_report_all calls : ∀ st,
  recorded_once st → recorded_once (report_all calls st).
Proof.
  unfold report_all. induction calls as [|[n nd] calls IH]; intros st H; [done|].
  simpl. apply IH. by apply recorded_once_report.
Qed.

End Reported.

(** ** The handler, branch by branch *)

Section Branches.

Context (h : Tree) (node : nat) (nd : Node) (nm : string) (p : Node).
Hypothesis Hnode : h !! node = Some nd.
Hypothesis Hname : name nd = Some nm.
Hypothesis Hparent : deref h (parent nd) = Some p.

Implicit Types (properties : string) (st : Traversal).

(** The handler once the node, its name and its parent are read. *)
Lemma Identifier_read properties st :
  Identifier properties h node st =
  let effectiveParent :=
    if String.eqb (type p) "MemberExpression" then parent p else parent nd in
  if String.eqb (type p) "MemberExpression" then
    if String.eqb properties "never" then Some st
    else
      o ← deref h (object p);
      if String.eqb (type o) "Identifier"
         && bool_decide (name o = Some nm)
         && isUnderscored (Str.replace_private nm)
      then Some (report node nd st)
      else
        ep ← deref h effectiveParent;
        if String.eqb (type ep) "AssignmentExpression" && isUnderscored (Str.replace_private nm)
        then
          side ← assignment_side h ep nm;
          if (side : bool) then Some (report node nd st) else Some st
        else Some st
  else if String.eqb (type p) "Property" then
    if String.eqb properties "never" then Some st
    else
      skip ← pattern_key_only h p node;
      if (skip : bool) then Some st
      else if isUnderscored (Str.replace_private nm) then
        ep ← deref h effectiveParent;
        if negb (ALLOWED_PARENT_TYPES_has (type ep))
        then Some (report node nd st) else Some st
      else Some st
  else if 0 <=? array_indexOf
                  ["ImportSpecifier"; "ImportNamespaceSpecifier";
                   "ImportDefaultSpecifier"] (type p) then
    imp ← import_local h p nm (Str.replace_private nm);
    if (imp : bool) then Some (report node nd st) else Some st
  else if isUnderscored (Str.replace_private nm) then
    ep ← deref h effectiveParent;
    if negb (ALLOWED_PARENT_TYPES_has (type ep))
    then Some (report node nd st) else Some st
  else Some st.
Proof.
  unfold Identifier. rewrite Hnode. cbn [mbind option_bind].
  rewrite Hname. cbn [mbind option_bind]. rewrite Hparent. reflexivity.
Qed.

(** The member branch. *)
Lemma Identifier_member properties st :
  type p = "MemberExpression" →
  Identifier properties h node st =
  if String.eqb properties "never" then Some st
  else
    o ← deref h (object p);
    if String.eqb (type o) "Identifier"
       && bool_decide (name o = Some nm)
       && isUnderscored (Str.replace_private nm)
    then Some (report node nd st)
    else
      ep ← deref h (parent p);
      if String.eqb (type ep) "AssignmentExpression"
         && isUnderscored (Str.replace_private nm)
      then
        side ← assignment_side h ep nm;
        if (side : bool) then Some (report node nd st) else Some st
      else Some st.
Proof. intros Hp. rewrite Identifier_read, Hp. reflexivity. Qed.

(** The property branch: the effective parent is the [Property] node
    itself, which is in no case one of [ALLOWED_PARENT_TYPES]. *)
Lemma Identifier_property properties st :
  type p = "Property" →
  Identifier properties h node st =
  if String.eqb properties "never" then Some st
  else
    skip ← pattern_key_only h p node;
    if (skip : bool) then Some st
    else if isUnderscored (Str.replace_private nm)
         then Some (report node nd st) else Some st.
Proof.
  intros Hp. rewrite Identifier_read, Hp. cbn zeta.
  change (String.eqb "Property" "MemberExpression") with false.
  change (String.eqb "Property" "Property") with true. cbn iota.
  rewrite Hparent. cbn [mbind option_bind]. rewrite Hp.
  destruct (String.eqb properties "never"); [done|].
  destruct (pattern_key_only h p node) as [[]|]; try done.
Qed.

(** The import branch. *)
Lemma Identifier_import properties st :
  import_type (type p) →
  Identifier properties h node st =
  imp ← import_local h p nm (Str.replace_private nm);
  if (imp : bool) then Some (report node nd st) else Some st.
Proof.
  intros Hp. rewrite Identifier_read.
  destruct Hp as [-> | [-> | ->]]; reflexivity.
Qed.

(** The last branch, for a parent of any other type. *)
Lemma Identifier_plain properties st :
  type p ≠ "MemberExpression" → type p ≠ "Property" → ¬ import_type (type p) →
  Identifier properties h node st =
  Some (if isUnderscored (Str.replace_private nm)
           && negb (ALLOWED_PARENT_TYPES_has (type p))
        then report node nd st else st).
Proof.
  intros Hm Hp Hi. rewrite Identifier_read. cbn zeta.
  apply String.eqb_neq in Hm, Hp. rewrite Hm, Hp.
  assert (array_indexOf
            ["ImportSpecifier"; "ImportNamespaceSpecifier"; "ImportDefaultSpecifier"]
            (type p) = -1) as ->.
  { unfold array_indexOf. apply array_indexOf_from_absent. intros Hin. apply Hi.
    unfold import_type.
    repeat (apply elem_of_cons in Hin as [->|Hin]; [auto|]).
    by apply elem_of_nil in Hin. }
  cbn [Z.leb Z.compare]. rewrite Hparent. cbn [mbind option_bind].
  destruct (isUnderscored _); [|done].
  by destruct (ALLOWED_PARENT_TYPES_has _).
Qed.

Lemma import_type_dec t : import_type t ∨ ¬ import_type t.
Proof. unfold import_type. destruct (decide (t = "ImportSpecifier")), (decide (t = "ImportNamespaceSpecifier")), (decide (t = "ImportDefaultSpecifier")); tauto. Qed.

(** Every path to [report] goes through the underscore test. *)
Lemma Identifier_guarded properties st :
  isUnderscored (Str.replace_private nm) = false →
  Identifier properties h node st = Some st ∨ Identifier properties h node st = None.
Proof.
  intros Hu.
  destruct (decide (type p = "MemberExpression")) as [Hm|Hm].
  { rewrite Identifier_member by done.
    destruct (String.eqb properties "never"); [by left|].
    destruct (deref h (object p)) as [o|]; [|by right]. cbn [mbind option_bind].
    rewrite Hu, andb_false_r.
    destruct (deref h (parent p)) as [ep|]; [|by right]. cbn [mbind option_bind].
    rewrite andb_false_r. by left. }
  destruct (decide (type p = "Property")) as [Hp|Hp].
  { rewrite Identifier_property by done.
    destruct (String.eqb properties "never"); [by left|].
    destruct (pattern_key_only h p node) as [[]|]; [by left| |by right].
    cbn [mbind option_bind]. rewrite Hu. by left. }
  destruct (import_type_dec (type p)) as [Hi|Hi].
  { rewrite Identifier_import by done. unfold import_local.
    destruct (local p) as [l|]; [|by left].
    destruct (h !! l) as [ln|]; [|by right]. cbn [mbind option_bind].
    rewrite Hu, andb_false_r. by left. }
  rewrite Identifier_plain, Hu by done. by left.
Qed.

(** The handler returns the traversal as it was, or with the node
    reported. *)
Lemma Identifier_outcome properties st st' :
  Identifier properties h node st = Some st' →
  st' = st ∨ st' = report node nd st.
Proof.
  destruct (decide (type p = "MemberExpression")) as [Hm|Hm].
  { rewrite Identifier_member by done.
    destruct (String.eqb properties "never"); [intros [= <-]; by left|].
    destruct (deref h (object p)) as [o|]; [|done]. cbn [mbind option_bind].
    destruct (_ && _ && _); [intros [= <-]; by right|].
    destruct (deref h (parent p)) as [ep|]; [|done]. cbn [mbind option_bind].
    destruct (_ && _); [|intros [= <-]; by left].
    destruct (assignment_side h ep nm) as [[]|]; [| |done];
      intros [= <-]; auto. }
  destruct (decide (type p = "Property")) as [Hp|Hp].
  { rewrite Identifier_property by done.
    destruct (String.eqb properties "never"); [intros [= <-]; by left|].
    destruct (pattern_key_only h p node) as [[]|]; [| |done];
      cbn [mbind option_bind]; [intros [= <-]; by left|].
    destruct (isUnderscored _); intros [= <-]; auto. }
  destruct (import_type_dec (type p)) as [Hi|Hi].
  { rewrite Identifier_import by done.
    destruct (import_local h p nm _) as [[]|]; [| |done]; intros [= <-]; auto. }
  rewrite Identifier_plain by done.
  destruct (_ && _); intros [= <-]; auto.
Qed.

End Branches.

(** The handler keeps the invariant of the traversal. *)
Lemma recorded_once_Identifier properties h node st st' :
  Identifier properties h node st = Some st' →
  recorded_once st → recorded_once st'.
Proof.
  intros Hrun Hinv.
  destruct (h !! node) as [nd|] eqn:Hnode; [|by unfold Identifier in Hrun; rewrite Hnode in Hrun].
  destruct (name nd) as [nm|] eqn:Hname;
    [|by unfold Identifier in Hrun; rewrite Hnode in Hrun; cbn in Hrun; rewrite Hname in Hrun].
  destruct (deref h (parent nd)) as [p|] eqn:Hparent;
    [|by unfold Identifier in Hrun; rewrite Hnode in Hrun; cbn in Hrun;
         rewrite Hname in Hrun; cbn in Hrun; rewrite Hparent in Hrun].
  destruct (Identifier_outcome h node nd nm p Hnode Hname Hparent _ _ _ Hrun) as [->| ->];
    [done|by apply recorded_once_report].
Qed.

Lemma recorded_once_traverse properties h visits : ∀ st st',
  traverse properties h visits st = Some st' →
  recorded_once st → recorded_once st'.
Proof.
  induction visits as [|n visits IH]; intros st st' Hrun Hinv.
  - by injection Hrun as <-.
  - cbn [traverse] in Hrun.
    destruct (Identifier properties h n st) as [st1|] eqn:Hn; [|done].
    cbn [mbind option_bind] in Hrun.
    eapply IH; [done|]. by eapply recorded_once_Identifier.
Qed.

(** A node that was not yet reported leaves its trace. *)
Lemma report_changes node nd st : node ∉ reported st → report node nd st ≠ st.
Proof.
  intros H. rewrite report_fresh by done. destruct st as [r s]. simpl.
  intros [= Hr _]. apply (f_equal length) in Hr. rewrite length_app in Hr.
  simpl in Hr. lia.
Qed.

(** What [report] does, in full: nothing for a node of [reported], and
    for any other node the record of its violation. *)
Lemma report_spec node nd st :
  report node nd st =
  if bool_decide (node ∉ reported st) then record_violation node nd st else st.
Proof. unfold report. by rewrite indexOf_negative. Qed.

Lemma outcome_spec (c : bool) node nd st :
  (if c then report node nd st else st) =
  (if c && bool_decide (node ∉ reported st)
   then record_violation node nd st else st).
Proof. rewrite report_spec. by destruct c, (bool_decide _). Qed.

(** ** Properties of the handler *)

(** C6: every report is guarded by the underscore test on the stripped
    name. An identifier whose stripped name fails the test, and so one whose
    name has no underscore or is its own upper-casing, is never reported,
    whatever its context and the mode: the handler returns the traversal as
    it was, or throws before any report. *)
Theorem never_reported_without_underscore
    (properties : string) (h : Tree) (node : nat) (nd : Node) (nm : string)
    (st : Traversal) :
  h !! node = Some nd → name nd = Some nm →
  isUnderscored (Str.replace_private nm) = false
  ∨ Str.no_us nm = true ∨ Str.toUpperCase nm = nm →
  Identifier properties h node st = Some st
  ∨ Identifier properties h node st = None.
Proof.
  intros Hnode Hname Hnm.
  assert (isUnderscored (Str.replace_private nm) = false) as Hu.
  { destruct Hnm as [Hu|Hnm]; [done|]. by apply stripped_not_underscored. }
  destruct (deref h (parent nd)) as [p|] eqn:Hparent.
  - by eapply Identifier_guarded.
  - right. unfold Identifier. rewrite Hnode. cbn [mbind option_bind].
    rewrite Hname. cbn [mbind option_bind]. by rewrite Hparent.
Qed.

Lemma never_reported_without_underscore_witness :
  Identifier "never" constant_declared 3 start = Some start
  ∨ Identifier "never" constant_declared 3 start = None.
Proof.
  apply (never_reported_without_underscore "never" constant_declared 3
           (identifier "MAX_VALUE" 2) "MAX_VALUE" start);
    [reflexivity | reflexivity | right; right; reflexivity].
Defined.

Example MAX_VALUE_passes :
  Identifier "always" constant_declared 3 start = Some start
  ∧ Identifier "never" constant_declared 3 start = Some start.
Proof. split; reflexivity. Qed.

(** C8: under "always", an identifier whose parent is an import specifier
    is reported exactly when the specifier's local name is the identifier's
    own name and the stripped name is underscored: then, unless the node was
    reported before, the handler returns the traversal with the violation of
    the node recorded; otherwise it returns the traversal as it was. *)
Theorem import_binding_reported
    (h : Tree) (node : nat) (nd : Node) (nm : string) (p : Node)
    (l : nat) (ln : Node) (st : Traversal) :
  h !! node = Some nd → name nd = Some nm →
  deref h (parent nd) = Some p → import_type (type p) →
  local p = Some l → h !! l = Some ln →
  Identifier "always" h node st =
  Some (if bool_decide (name ln = Some nm)
           && isUnderscored (Str.replace_private nm)
           && bool_decide (node ∉ reported st)
        then record_violation node nd st else st).
Proof.
  intros Hnode Hname Hparent Hp Hl Hln.
  rewrite (Identifier_import h node nd nm p) by done.
  unfold import_local. rewrite Hl, Hln. cbn [mbind option_bind].
  rewrite <- outcome_spec. by destruct (_ && _).
Qed.

Lemma import_binding_reported_witness :
  Identifier "always" import_plain 3 start =
  Some (mkTraversal [3%nat] [violation 3 "my_export"]).
Proof.
  apply (import_binding_reported import_plain 3 (identifier "my_export" 2)
           "my_export" (importSpecifier 1 3) 3 (identifier "my_export" 2) start);
    first [reflexivity | left; reflexivity].
Defined.

Example import_plain_reported :
  sink <$> Identifier "always" import_plain 3 start =
  Some [violation 3 "my_export"].
Proof. reflexivity. Qed.

Example import_renamed_passes :
  traverse "always" import_renamed [3; 4]%nat start = Some start.
Proof. reflexivity. Qed.

(** C9: whatever the calls to [report], no node has two violations
    recorded; neither has one after any traversal, and the shorthand entry of
    a destructuring pattern, visited as key and as value, is reported
    once. *)
Theorem reported_at_most_once :
  (∀ calls : list (nat * Node),
     NoDup (v_node <$> sink (report_all calls start)))
  ∧ (∀ (properties : string) (h : Tree) (visits : list nat) (st : Traversal),
       traverse properties h visits start = Some st →
       NoDup (v_node <$> sink st))
  ∧ sink <$> traverse "always" shorthand_pattern [5; 5; 6]%nat start =
    Some [violation 5 "my_field"].
Proof.
  split_and!.
  - intros calls.
    destruct (recorded_once_report_all calls start recorded_once_start) as [-> H].
    exact H.
  - intros properties h visits st Hrun.
    destruct (recorded_once_traverse _ _ _ _ _ Hrun recorded_once_start) as [-> H].
    exact H.
  - reflexivity.
Qed.

Example report_twice :
  sink (report_all [(5%nat, identifier "my_field" 4); (5%nat, identifier "my_field" 4)] start)
  = [violation 5 "my_field"].
Proof. reflexivity. Qed.

(** C1, as the source has it: under "always", an identifier that is the key
    (or the value) of a property of an object literal is reported exactly
    when its stripped name is underscored, wherever the object literal
    stands. The test on [ALLOWED_PARENT_TYPES] in this branch looks at the
    [Property] node itself and so exempts nothing. *)
Theorem object_key_reported
    (h : Tree) (node : nat) (nd : Node) (nm : string) (p : Node)
    (g : nat) (gp : Node) (st : Traversal) :
  h !! node = Some nd → name nd = Some nm →
  deref h (parent nd) = Some p → type p = "Property" →
  parent p = Some g → h !! g = Some gp → type gp = "ObjectExpression" →
  Identifier "always" h node st =
  Some (if isUnderscored (Str.replace_private nm)
        then report node nd st else st).
Proof.
  intros Hnode Hname Hparent Hp Hg Hgp Hobj.
  rewrite (Identifier_property h node nd nm p) by done.
  unfold pattern_key_only. rewrite Hg, Hgp. cbn [mbind option_bind].
  rewrite Hobj. cbn. by destruct (isUnderscored _).
Qed.

Lemma object_key_reported_witness :
  Identifier "always" declared_object 6 start =
  Some (report 6 (identifier "my_option" 5) start).
Proof.
  apply (object_key_reported declared_object 6 (identifier "my_option" 5)
           "my_option" (propertyNode 4 6 7) 4
           (other "ObjectExpression" (Some 2%nat)) start);
    reflexivity.
Defined.

(** C1, as the claim states it, fails: the key [my_option] of
    [foo({my_option: 1})] is reported. *)
Lemma object_key_in_call_reported :
  sink <$> Identifier "always" call_with_object 6 start =
  Some [violation 6 "my_option"].
Proof. reflexivity. Qed.

Example object_key_declared_reported :
  sink <$> Identifier "always" declared_object 6 start =
  Some [violation 6 "my_option"].
Proof. reflexivity. Qed.

(** C2, as the source has it: under "always", for an identifier in a member
    access whose object is not an identifier of the same name, a report
    needs an underscored stripped name and a member access that is an
    operand of an assignment; as the property of the left-hand side it is
    reported exactly when its stripped name is underscored: then, unless the
    node was reported before, the handler returns the traversal with the
    violation of the node recorded; in the right-hand side it is not
    reported when the left-hand side is no member access, or one whose
    property has another name. *)
Theorem member_property_assignment
    (h : Tree) (node : nat) (nd : Node) (nm : string) (pi : nat) (p o : Node)
    (gi : nat) (gp : Node) (st : Traversal) :
  h !! node = Some nd → name nd = Some nm →
  parent nd = Some pi → h !! pi = Some p → type p = "MemberExpression" →
  deref h (object p) = Some o →
  ¬ (type o = "Identifier" ∧ name o = Some nm) →
  parent p = Some gi → h !! gi = Some gp →
  (∀ st', Identifier "always" h node st = Some st' → st' ≠ st →
     isUnderscored (Str.replace_private nm) = true
     ∧ type gp = "AssignmentExpression")
  ∧ (type gp = "AssignmentExpression" → left gp = Some pi →
     property p = Some node → is_Some (deref h (right gp)) →
     Identifier "always" h node st =
     Some (if isUnderscored (Str.replace_private nm)
              && bool_decide (node ∉ reported st)
           then record_violation node nd st else st))
  ∧ (type gp = "AssignmentExpression" → right gp = Some pi →
     ∀ l, deref h (left gp) = Some l →
       type l ≠ "MemberExpression"
       ∨ (∃ pr, deref h (property l) = Some pr ∧ name pr ≠ Some nm) →
       Identifier "always" h node st = Some st).
Proof.
  intros Hnode Hname Hpi Hp Hmem Ho Hobj Hgi Hgp.
  assert (deref h (parent nd) = Some p) as Hparent by (by rewrite Hpi).
  assert (deref h (parent p) = Some gp) as Hgrand by (by rewrite Hgi).
  assert (String.eqb (type o) "Identifier" && bool_decide (name o = Some nm)
          = false) as Hfirst.
  { apply andb_false_iff.
    destruct (String.eqb_spec (type o) "Identifier") as [Ht|]; [|by left].
    right. apply bool_decide_eq_false. tauto. }
  assert (∀ st0, Identifier "always" h node st0 =
            if String.eqb (type gp) "AssignmentExpression"
               && isUnderscored (Str.replace_private nm)
            then side ← assignment_side h gp nm;
                 Some (if (side : bool) then report node nd st0 else st0)
            else Some st0) as Hrun.
  { intros st0. rewrite (Identifier_member h node nd nm p) by done.
    change (String.eqb "always" "never") with false. cbn iota.
    rewrite Ho. cbn [mbind option_bind]. rewrite Hfirst, Hgrand.
    cbn [mbind option_bind andb].
    destruct (String.eqb (type gp) _ && _); [|done].
    by destruct (assignment_side h gp nm) as [[]|]. }
  split_and!.
  - intros st' Hst' Hne. rewrite Hrun in Hst'.
    destruct (String.eqb_spec (type gp) "AssignmentExpression") as [Ht|];
      [|by injection Hst' as <-].
    destruct (isUnderscored _); [done|]. by injection Hst' as <-.
  - intros Ht Hleft Hprop [r Hr]. rewrite <- outcome_spec, Hrun, Ht.
    change (String.eqb "AssignmentExpression" "AssignmentExpression") with true.
    cbn [andb]. destruct (isUnderscored _); [|done].
    unfold assignment_side. rewrite Hr. cbn [mbind option_bind].
    destruct (negb _); [done|].
    rewrite Hleft. cbn [deref mbind option_bind]. rewrite Hp. cbn [mbind option_bind].
    rewrite Hmem.
    change (String.eqb "MemberExpression" "MemberExpression") with true. cbn iota.
    rewrite Hprop. cbn [deref mbind option_bind]. rewrite Hnode.
    cbn [mbind option_bind]. by rewrite bool_decide_eq_true_2.
  - intros Ht Hright l Hl Hside. rewrite Hrun, Ht.
    change (String.eqb "AssignmentExpression" "AssignmentExpression") with true.
    cbn [andb]. destruct (isUnderscored _); [|done].
    unfold assignment_side. rewrite Hright. cbn [deref mbind option_bind].
    rewrite Hp. cbn [mbind option_bind]. rewrite Hmem.
    change (String.eqb "MemberExpression" "MemberExpression") with true.
    cbn [negb]. cbn iota. rewrite Hl. cbn [mbind option_bind].
    destruct Hside as [Hl'|(pr & Hpr & Hne)].
    + apply String.eqb_neq in Hl'. by rewrite Hl'.
    + destruct (String.eqb (type l) "MemberExpression"); [|done].
      rewrite Hpr. cbn [mbind option_bind]. by rewrite bool_decide_eq_false_2.
Qed.

Lemma member_property_assignment_witness :
  Identifier "always" (assign_to_member "my_prop") 5 start =
  Some (mkTraversal [5%nat] [violation 5 "my_prop"]).
Proof.
  refine (proj1 (proj2
    (member_property_assignment (assign_to_member "my_prop") 5
       (identifier "my_prop" 3) "my_prop" 3 (memberExpression 2 4 5)
       (identifier "obj" 3) 2 (assignmentExpression 1 3 6) start
       eq_refl eq_refl eq_refl eq_refl eq_refl eq_refl _ eq_refl eq_refl))
    eq_refl eq_refl eq_refl _).
  - intros [_ Hname]. discriminate Hname.
  - eexists. reflexivity.
Defined.

(** C2, as the claim states it, fails: the property [_prop] of
    [obj._prop = 5] is not reported, its stripped name being [prop]. *)
Lemma private_property_assignment_passes :
  Identifier "always" (assign_to_member "_prop") 5 start = Some start.
Proof. reflexivity. Qed.

Example member_assignment_reported :
  sink <$> Identifier "always" (assign_to_member "my_prop") 5 start =
  Some [violation 5 "my_prop"].
Proof. reflexivity. Qed.

Example member_read_passes :
  Identifier "always" (read_member "my_prop") 6 start = Some start
  ∧ Identifier "always" (read_member "_prop") 6 start = Some start.
Proof. split; reflexivity. Qed.

(** The test for the left-hand side compares names, not nodes: in
    [a.my_prop = b.my_prop] the property read on the right is reported as
    well. *)
Example copy_member_reports_both :
  sink <$> traverse "always" copy_member [4; 5; 7; 8]%nat start =
  Some [violation 5 "my_prop"; violation 8 "my_prop"].
Proof. reflexivity. Qed.

(** C3, as the source has it: under "always", the key of an entry of a
    destructuring pattern is never reported when the entry's value is
    another node (an entry that renames); when key and value are one node
    (shorthand), it is reported exactly when its stripped name is
    underscored. *)
Theorem pattern_key_reported
    (h : Tree) (node : nat) (nd : Node) (nm : string) (p : Node)
    (g : nat) (gp : Node) (st : Traversal) :
  h !! node = Some nd → name nd = Some nm →
  deref h (parent nd) = Some p → type p = "Property" →
  parent p = Some g → h !! g = Some gp → type gp = "ObjectPattern" →
  key p = Some node →
  (value p ≠ Some node → Identifier "always" h node st = Some st)
  ∧ (value p = Some node →
     Identifier "always" h node st =
     Some (if isUnderscored (Str.replace_private nm)
           then report node nd st else st)).
Proof.
  intros Hnode Hname Hparent Hp Hg Hgp Hpat Hkey.
  rewrite (Identifier_property h node nd nm p) by done.
  unfold pattern_key_only. rewrite Hg, Hgp. cbn [mbind option_bind].
  rewrite Hpat, bool_decide_eq_true_2 by done.
  change (String.eqb "ObjectPattern" "ObjectPattern") with true.
  change (String.eqb "always" "never") with false. cbn [andb]. cbn iota.
  split; intros Hvalue.
  - by rewrite bool_decide_eq_false_2.
  - rewrite bool_decide_eq_true_2 by done. cbn [negb].
    by destruct (isUnderscored _).
Qed.

Lemma pattern_key_reported_witness :
  Identifier "always" renaming_pattern 5 start = Some start.
Proof.
  refine (proj1
    (pattern_key_reported renaming_pattern 5 (identifier "my_field" 4)
       "my_field" (propertyNode 3 5 6) 3
       (other "ObjectPattern" (Some 2%nat)) start
       eq_refl eq_refl eq_refl eq_refl eq_refl eq_refl eq_refl eq_refl) _).
  intros Hvalue. discriminate Hvalue.
Defined.

(** C3, as the claim states it, fails: the key of the shorthand entry of
    [({my_field} = obj)], which is also its value, is reported. *)
Lemma shorthand_key_reported :
  sink <$> Identifier "always" shorthand_pattern 5 start =
  Some [violation 5 "my_field"].
Proof. reflexivity. Qed.

Example renaming_key_passes :
  Identifier "always" renaming_pattern 5 start = Some start.
Proof. reflexivity. Qed.

(** C4, as the source has it: under "never", an identifier whose parent is
    a member access or a property is never reported; the name of an import
    specifier is reported as under "always", when the local name is the
    identifier's own and the stripped name is underscored; any other
    identifier is reported when its stripped name is underscored and its
    parent is neither a call nor a construction. *)
Theorem never_exempts_properties
    (h : Tree) (node : nat) (nd : Node) (nm : string) (p : Node)
    (st : Traversal) :
  h !! node = Some nd → name nd = Some nm →
  deref h (parent nd) = Some p →
  (type p = "MemberExpression" ∨ type p = "Property" →
   Identifier "never" h node st = Some st)
  ∧ (import_type (type p) →
     ∀ l ln, local p = Some l → h !! l = Some ln →
       Identifier "never" h node st =
       Some (if bool_decide (name ln = Some nm)
                && isUnderscored (Str.replace_private nm)
             then report node nd st else st))
  ∧ (type p ≠ "MemberExpression" → type p ≠ "Property" →
     ¬ import_type (type p) →
     Identifier "never" h node st =
     Some (if isUnderscored (Str.replace_private nm)
              && negb (ALLOWED_PARENT_TYPES_has (type p))
           then report node nd st else st)).
Proof.
  intros Hnode Hname Hparent. split_and!.
  - intros [Hp|Hp].
    + by rewrite (Identifier_member h node nd nm p).
    + by rewrite (Identifier_property h node nd nm p).
  - intros Hp l ln Hl Hln.
    rewrite (Identifier_import h node nd nm p) by done.
    unfold import_local. rewrite Hl, Hln. cbn [mbind option_bind].
    by destruct (_ && _).
  - intros Hm Hp Hi. by apply Identifier_plain.
Qed.

Lemma never_exempts_properties_witness :
  Identifier "never" var_and_key 6 start = Some start.
Proof.
  refine (proj1
    (never_exempts_properties var_and_key 6 (identifier "my_key" 5) "my_key"
       (propertyNode 4 6 7) start eq_refl eq_refl eq_refl) _).
  right. reflexivity.
Defined.

(** C4, as the claim states it, fails: under "never" the name of the import
    specifier of [import { my_export } from "m"] is reported. *)
Lemma import_binding_reported_under_never :
  sink <$> Identifier "never" import_plain 3 start =
  Some [violation 3 "my_export"].
Proof. reflexivity. Qed.

Example never_checks_variables :
  sink <$> traverse "never" var_and_key [3; 6]%nat start =
  Some [violation 3 "my_var"].
Proof. reflexivity. Qed.

(** The option of the rule: anything but "never" is "always". *)
Lemma properties_of_cases (option0 : option string) :
  properties_of option0 = "never" ∧ option0 = Some "never"
  ∨ properties_of option0 = "always" ∧ option0 ≠ Some "never".
Proof.
  unfold properties_of. destruct option0 as [v|]; cbn;
    [|right; by split].
  destruct (String.eqb_spec v "never") as [->|Hn]; [left; by split|]. right.
  destruct (String.eqb_spec v "always") as [->|Ha]; cbn;
    (split; [done|congruence]).
Qed.

Lemma create_never : create (Some "never") = Identifier "never".
Proof. reflexivity. Qed.

(** Any other value of the option, or none, is "always". *)
Lemma create_always (option0 : option string) :
  option0 ≠ Some "never" → create option0 = Identifier "always".
Proof.
  intros H. unfold create.
  destruct (properties_of_cases option0) as [[_ ?]|[-> _]]; done.
Qed.

(** ** Further properties of the rewriter *)

Section RewriterMore.

Implicit Types (s t p q : string) (c : ascii) (w : bool).

(** The result of the rewriter, whatever the text. *)
Lemma removeUnderscore_runs s :
  removeUnderscore s =
  Str.leading_us s +:+
  (removeUnderscore_loop (Str.replace_private s) "" false +:+
   default "" (Str.exec_suffix s)).
Proof. unfold removeUnderscore. by rewrite privateFlagPrefix_eq, privateFlagSuffix_eq. Qed.

Lemma all_us_suffix s : Str.all_us (default "" (Str.exec_suffix s)) = true.
Proof.
  destruct (Str.exec_suffix s) as [t|] eqn:E; [|done]. by apply all_us_exec_suffix in E.
Qed.

Lemma drop_leading_us_markers p t :
  Str.all_us p = true → Str.drop_leading_us (p +:+ t) = Str.drop_leading_us t.
Proof.
  induction p as [|c p IH]; [done|]. rewrite app_cons. simpl.
  destruct (Str.is_us c); [|done]. apply IH.
Qed.

Lemma drop_trailing_us_markers t q :
  Str.all_us q = true → Str.drop_trailing_us (t +:+ q) = Str.drop_trailing_us t.
Proof.
  intros Hq. induction t as [|c t IH].
  - rewrite app_empty_l. by apply drop_trailing_us_all.
  - rewrite app_cons. simpl. rewrite all_us_app, Hq, andb_true_r, IH. done.
Qed.

Lemma drop_leading_us_before_markers s q :
  Str.all_us q = true →
  Str.drop_leading_us (s +:+ q) =
  if Str.all_us s then "" else Str.drop_leading_us s +:+ q.
Proof.
  intros Hq. induction s as [|c s IH].
  - rewrite app_empty_l. by apply drop_leading_us_all.
  - rewrite app_cons. simpl. destruct (Str.is_us c); [apply IH|done].
Qed.

(** Private markers around a text are stripped with its own. *)
Lemma replace_private_markers p s q :
  Str.all_us p = true → Str.all_us q = true →
  Str.replace_private (p +:+ (s +:+ q)) = Str.replace_private s.
Proof.
  intros Hp Hq. unfold Str.replace_private.
  rewrite drop_leading_us_markers, drop_leading_us_before_markers by done.
  destruct (Str.all_us s) eqn:Hs.
  - by rewrite drop_leading_us_all.
  - by apply drop_trailing_us_markers.
Qed.

Lemma leading_split s : s = Str.leading_us s +:+ Str.drop_leading_us s.
Proof.
  induction s as [|c s IH]; [done|]. simpl.
  destruct (Str.is_us c); [|done]. by rewrite app_cons, <- IH.
Qed.

Lemma trailing_split t :
  t = Str.drop_trailing_us t +:+ default "" (Str.exec_suffix t).
Proof.
  induction t as [|c t IH]; [done|]. simpl.
  destruct (Str.is_us c && Str.all_us t); [done|]. by rewrite app_cons, <- IH.
Qed.

Lemma exec_suffix_drop_leading s :
  Str.all_us s = false →
  Str.exec_suffix s = Str.exec_suffix (Str.drop_leading_us s).
Proof.
  induction s as [|c s IH]; [done|]. cbn [Str.all_us Str.drop_leading_us].
  destruct (Str.is_us c) eqn:E; [|done]. cbn [andb Str.exec_suffix]. intros Hs.
  rewrite E, Hs. by apply IH.
Qed.

Lemma upper_ascii_idem c : Str.upper_ascii (Str.upper_ascii c) = Str.upper_ascii c.
Proof. by destruct c as [[] [] [] [] [] [] [] []]. Qed.

End RewriterMore.

(** X1: the text the fix puts in place of an identifier passes the
    underscore test of the rule, whatever the text was: once stripped of its
    private markers, the rewritten text is not underscored. So the fix
    changes every text that fails the test. *)
Theorem fix_passes_underscore_test (s : string) :
  isUnderscored (Str.replace_private (removeUnderscore s)) = false
  ∧ (isUnderscored (Str.replace_private s) = true → removeUnderscore s ≠ s).
Proof.
  assert (isUnderscored (Str.replace_private (removeUnderscore s)) = false) as H.
  { rewrite removeUnderscore_runs.
    rewrite replace_private_markers by (apply all_us_leading || apply all_us_suffix).
    pose proof (loop_no_us (Str.replace_private s) false) as Hno.
    unfold Str.replace_private at 1. destruct (no_us_core _ Hno) as [-> ->].
    by apply isUnderscored_no_us. }
  split; [done|]. intros Hs Heq. rewrite Heq in H. congruence.
Qed.

(** X2: leading and trailing underscores are not judged: around any name,
    they change neither the stripped name nor the result of the underscore
    test on it. *)
Theorem private_markers_not_judged (p s q : string) :
  Str.all_us p = true → Str.all_us q = true →
  Str.replace_private (p +:+ (s +:+ q)) = Str.replace_private s
  ∧ isUnderscored (Str.replace_private (p +:+ (s +:+ q))) =
    isUnderscored (Str.replace_private s).
Proof.
  intros Hp Hq. by rewrite replace_private_markers.
Qed.

Lemma private_markers_not_judged_witness :
  Str.replace_private ("__" +:+ ("my_name" +:+ "_")) = Str.replace_private "my_name"
  ∧ isUnderscored (Str.replace_private ("__" +:+ ("my_name" +:+ "_"))) =
    isUnderscored (Str.replace_private "my_name").
Proof. apply (private_markers_not_judged "__" "my_name" "_"); reflexivity. Defined.

(** X3: a text whose stripped form has no underscore is left as it is by
    the rewriter, private markers included, provided it is not made of
    underscores only. *)
Theorem removeUnderscore_fixes_camel (s : string) :
  Str.all_us s = false → Str.no_us (Str.replace_private s) = true →
  removeUnderscore s = s.
Proof.
  intros Hs Hno. rewrite removeUnderscore_runs, loop_id by done.
  rewrite exec_suffix_drop_leading by done. unfold Str.replace_private.
  by rewrite <- trailing_split, <- leading_split.
Qed.

Lemma removeUnderscore_fixes_camel_witness :
  removeUnderscore "__myPrivate_" = "__myPrivate_".
Proof. apply removeUnderscore_fixes_camel; reflexivity. Defined.

(** X4: a text made of underscores only (and not empty) is not a fixed
    point of the rewriter: the prefix and the suffix each match the whole
    text, and the result is the text twice. *)
Theorem removeUnderscore_only_markers (s : string) :
  Str.all_us s = true →
  removeUnderscore s = s +:+ s ∧ (s ≠ "" → removeUnderscore s ≠ s).
Proof.
  intros Hs. rewrite removeUnderscore_all_us by done. split; [done|].
  intros Hne Heq. apply (f_equal String.length) in Heq.
  rewrite app_length in Heq. destruct s; [done|]. simpl in Heq. lia.
Qed.

Lemma removeUnderscore_only_markers_witness :
  removeUnderscore "__" = "__" +:+ "__" ∧ ("__" ≠ "" → removeUnderscore "__" ≠ "__").
Proof. apply removeUnderscore_only_markers. reflexivity. Defined.

(** X5: the loop of the rewriter only drops underscores and changes the
    case of characters: upper-cased, its result is the upper-cased text
    without its underscores, whatever the flag it starts with. *)
Theorem loop_keeps_characters (t : string) (w : bool) :
  Str.toUpperCase (removeUnderscore_loop t "" w) =
  Str.toUpperCase (remove_underscores t).
Proof.
  revert w. induction t as [|c t IH]; intros w; [done|].
  cbn [remove_underscores]. destruct (Str.is_us c) eqn:E.
  - rewrite loop_cons_us by done. apply IH.
  - rewrite loop_cons_other by done. cbn [Str.toUpperCase]. rewrite IH.
    destruct w; by rewrite ?upper_ascii_idem.
Qed.

(** ** Further properties of [report] and of the handler *)

Lemma report_reported node nd st : node ∈ reported (report node nd st).
Proof.
  destruct (decide (node ∈ reported st)) as [Hin|Hout].
  - by rewrite report_again.
  - rewrite report_fresh by done. cbn. apply elem_of_app. right.
    by apply list_elem_of_singleton.
Qed.

Lemma report_sink node nd st :
  sink (report node nd st) = sink st
  ∨ sink (report node nd st) =
    (sink st ++ [mkViolation node camelcase_message (name nd)
                   (removeUnderscore (text nd))])%list.
Proof.
  destruct (decide (node ∈ reported st)) as [Hin|Hout].
  - left. by rewrite report_again.
  - right. by rewrite report_fresh.
Qed.

(** The verdict of the handler on a node does not depend on the traversal:
    it throws from any state, or returns from any state, with or without a
    call of [report]. *)
Lemma Identifier_decision properties h node :
  (∀ st, Identifier properties h node st = None)
  ∨ (∃ nd (b : bool), h !! node = Some nd
       ∧ ∀ st, Identifier properties h node st =
               Some (if b then report node nd st else st)).
Proof.
  destruct (h !! node) as [nd|] eqn:Hnode;
    [|left; intros st; unfold Identifier; by rewrite Hnode].
  destruct (name nd) as [nm|] eqn:Hname;
    [|left; intros st; unfold Identifier; rewrite Hnode; cbn; by rewrite Hname].
  destruct (deref h (parent nd)) as [p|] eqn:Hparent;
    [|left; intros st; unfold Identifier; rewrite Hnode; cbn; rewrite Hname; cbn;
      by rewrite Hparent].
  destruct (decide (type p = "MemberExpression")) as [Hm|Hm].
  { pose proof (λ st, Identifier_member h node nd nm p Hnode Hname Hparent
                        properties st Hm) as Hmem.
    destruct (String.eqb properties "never") eqn:E1.
    { right. exists nd, false. split; [done|]. intros st. by rewrite Hmem, ?E1. }
    destruct (deref h (object p)) as [o|] eqn:E2;
      [|left; intros st; by rewrite Hmem, ?E1, ?E2].
    destruct (String.eqb (type o) "Identifier" && bool_decide (name o = Some nm)
              && isUnderscored (Str.replace_private nm)) eqn:E3.
    { right. exists nd, true. split; [done|]. intros st.
      rewrite Hmem, ?E1, ?E2. cbn [mbind option_bind]. by rewrite ?E3. }
    destruct (deref h (parent p)) as [ep|] eqn:E4;
      [|left; intros st; rewrite Hmem, ?E1, ?E2; cbn [mbind option_bind];
        by rewrite ?E3, ?E4].
    destruct (String.eqb (type ep) "AssignmentExpression"
              && isUnderscored (Str.replace_private nm)) eqn:E5.
    - destruct (assignment_side h ep nm) as [side|] eqn:E6.
      + right. exists nd, side. split; [done|]. intros st.
        rewrite Hmem, ?E1, ?E2. cbn [mbind option_bind].
        rewrite ?E3, ?E4. cbn [mbind option_bind]. rewrite ?E5, ?E6.
        cbn [mbind option_bind]. by destruct side.
      + left. intros st. rewrite Hmem, ?E1, ?E2. cbn [mbind option_bind].
        rewrite ?E3, ?E4. cbn [mbind option_bind]. by rewrite ?E5, ?E6.
    - right. exists nd, false. split; [done|]. intros st.
      rewrite Hmem, ?E1, ?E2. cbn [mbind option_bind].
      rewrite ?E3, ?E4. cbn [mbind option_bind]. by rewrite ?E5. }
  destruct (decide (type p = "Property")) as [Hp|Hp].
  { pose proof (λ st, Identifier_property h node nd nm p Hnode Hname Hparent
                        properties st Hp) as Hprop.
    destruct (String.eqb properties "never") eqn:E1.
    { right. exists nd, false. split; [done|]. intros st. by rewrite Hprop, ?E1. }
    destruct (pattern_key_only h p node) as [skip|] eqn:E2;
      [|left; intros st; by rewrite Hprop, ?E1, ?E2].
    right. exists nd, (negb skip && isUnderscored (Str.replace_private nm)).
    split; [done|]. intros st. rewrite Hprop, ?E1, ?E2.
    cbn [mbind option_bind]. destruct skip; [done|].
    by destruct (isUnderscored _). }
  destruct (import_type_dec (type p)) as [Hi|Hi].
  { pose proof (λ st, Identifier_import h node nd nm p Hnode Hname Hparent
                        properties st Hi) as Himp.
    destruct (import_local h p nm (Str.replace_private nm)) as [imp|] eqn:E1.
    - right. exists nd, imp. split; [done|]. intros st. rewrite Himp, ?E1.
      cbn [mbind option_bind]. by destruct imp.
    - left. intros st. by rewrite Himp, ?E1. }
  right. eexists nd, _. split; [done|]. intros st. by apply Identifier_plain.
Qed.

(** X6: [report] is idempotent on a node, whatever the node objects handed
    with it, and it only ever appends: what was reported and what was handed
    to the host before the call is a prefix of what is after it. *)
Theorem report_idempotent_appends
    (node : nat) (nd nd' : Node) (st : Traversal) :
  report node nd' (report node nd st) = report node nd st
  ∧ reported st `prefix_of` reported (report node nd st)
  ∧ sink st `prefix_of` sink (report node nd st).
Proof.
  split; [apply report_again, report_reported|].
  destruct (decide (node ∈ reported st)) as [Hin|Hout].
  - by rewrite report_again.
  - rewrite report_fresh by done. split; by eexists.
Qed.



(** The host visits the identifier of [({my_field = 1} = obj)] twice, with
    its parent set anew each time: as the key of the entry it is passed
    over, as the left-hand side of the default it is reported; a third visit
    of either kind adds nothing. *)
Example default_pattern_visits :
  Identifier "always" default_pattern_at_key 5 start = Some start
  ∧ Identifier "always" default_pattern_at_value 5 start =
    Some (mkTraversal [5%nat] [violation 5 "my_field"])
  ∧ Identifier "always" default_pattern_at_key 5
      (mkTraversal [5%nat] [violation 5 "my_field"])
    = Some (mkTraversal [5%nat] [violation 5 "my_field"]).
Proof. split_and!; reflexivity. Qed.

(** X8: a traversal hands to the host what it had handed before, followed
    by violations of visited nodes only, each with the message of the rule,
    the name of its node and the rewritten text of its node. *)
Theorem traverse_reports_visited
    (properties : string) (h : Tree) (visits : list nat) (st st' : Traversal) :
  traverse properties h visits st = Some st' →
  ∃ new, sink st' = (sink st ++ new)%list
    ∧ Forall (λ v, v_node v ∈ visits
                ∧ ∃ nd, h !! v_node v = Some nd
                    ∧ v = mkViolation (v_node v) camelcase_message (name nd)
                            (removeUnderscore (text nd))) new.
Proof.
  revert st. induction visits as [|n visits IH]; intros st Hrun.
  - injection Hrun as <-. exists []. split; [by rewrite app_nil_r|constructor].
  - cbn [traverse] in Hrun.
    destruct (Identifier properties h n st) as [st1|] eqn:Hn; [|done].
    cbn [mbind option_bind] in Hrun.
    destruct (IH _ Hrun) as (new & Hsink & Hnew).
    assert (Forall (λ v, v_node v ∈ n :: visits
                ∧ ∃ nd, h !! v_node v = Some nd
                    ∧ v = mkViolation (v_node v) camelcase_message (name nd)
                            (removeUnderscore (text nd))) new) as Hnew'.
    { eapply Forall_impl; [exact Hnew|]. intros v [Hv Hnd]. split; [|done].
      by apply elem_of_cons; right. }
    destruct (Identifier_decision properties h n) as [Hnone|(nd & b & Hnd & Hsome)];
      [by rewrite Hnone in Hn|].
    rewrite Hsome in Hn. injection Hn as <-.
    destruct b; [|by exists new].
    destruct (report_sink n nd st) as [Hsame|Hmore].
    + exists new. by rewrite Hsink, Hsame.
    + eexists (_ :: new). rewrite Hsink, Hmore, <- app_assoc. split; [done|].
      constructor; [|done]. cbn. split; [by apply elem_of_cons; left|].
      by exists nd.
Qed.

Lemma traverse_reports_visited_witness :
  ∃ new, sink (report 3 (identifier "my_var" 2) start) = (sink start ++ new)%list
    ∧ Forall (λ v, v_node v ∈ [3; 6]%nat
                ∧ ∃ nd, var_and_key !! v_node v = Some nd
                    ∧ v = mkViolation (v_node v) camelcase_message (name nd)
                            (removeUnderscore (text nd))) new.
Proof.
  apply (traverse_reports_visited "never" var_and_key [3; 6]%nat start).
  reflexivity.
Defined.

(** X9: an identifier that is a direct child of a call or of a
    construction (the callee, or an argument) is never reported, under
    either mode. *)
Theorem call_child_exempt
    (properties : string) (h : Tree) (node : nat) (nd : Node) (nm : string)
    (p : Node) (st : Traversal) :
  h !! node = Some nd → name nd = Some nm →
  deref h (parent nd) = Some p →
  type p = "CallExpression" ∨ type p = "NewExpression" →
  Identifier properties h node st = Some st.
Proof.
  intros Hnode Hname Hparent Hp.
  rewrite (Identifier_plain h node nd nm p) by
    (try done; unfold import_type; destruct Hp as [-> | ->]; intuition discriminate).
  destruct Hp as [-> | ->]; by rewrite andb_false_r.
Qed.

Lemma call_child_exempt_witness :
  Identifier "always" call_of_underscored 3 start = Some start.
Proof.
  apply (call_child_exempt "always" call_of_underscored 3
           (identifier "do_something" 2) "do_something"
           (other "CallExpression" (Some 1%nat)) start);
    first [reflexivity | left; reflexivity].
Defined.

Example call_argument_exempt :
  traverse "always" call_of_underscored [3; 4]%nat start = Some start.
Proof. reflexivity. Qed.

(** X10: under "always", an identifier that is the object of a member
    access is reported exactly when its stripped name is underscored,
    wherever the member access stands: then, unless the node was reported
    before, the handler returns the traversal with the violation of the node
    recorded; otherwise it returns the traversal as it was. *)
Theorem object_name_reported
    (h : Tree) (node : nat) (nd : Node) (nm : string) (pi : nat) (p : Node)
    (gi : nat) (gp : Node) (st : Traversal) :
  h !! node = Some nd → type nd = "Identifier" → name nd = Some nm →
  parent nd = Some pi → h !! pi = Some p → type p = "MemberExpression" →
  object p = Some node →
  parent p = Some gi → h !! gi = Some gp →
  Identifier "always" h node st =
  Some (if isUnderscored (Str.replace_private nm)
           && bool_decide (node ∉ reported st)
        then record_violation node nd st else st).
Proof.
  intros Hnode Htype Hname Hpi Hp Hmem Hobj Hgi Hgp. rewrite <- outcome_spec.
  rewrite (Identifier_member h node nd nm p) by (by rewrite ?Hpi).
  change (String.eqb "always" "never") with false. cbn iota.
  rewrite Hobj. cbn [deref mbind option_bind]. rewrite Hnode.
  cbn [mbind option_bind]. rewrite Htype, bool_decide_eq_true_2 by done.
  change (String.eqb "Identifier" "Identifier") with true. cbn [andb].
  destruct (isUnderscored _); [done|].
  rewrite Hgi. cbn [deref mbind option_bind]. rewrite Hgp.
  cbn [mbind option_bind]. by rewrite andb_false_r.
Qed.

Lemma object_name_reported_witness :
  Identifier "always" underscored_object 5 start =
  Some (mkTraversal [5%nat] [violation 5 "my_obj"]).
Proof.
  apply (object_name_reported underscored_object 5 (identifier "my_obj" 4)
           "my_obj" 4 (memberExpression 2 5 6) 2 (assignmentExpression 1 3 4) start);
    reflexivity.
Defined.

(** X11: the option bears on the children of member accesses and of
    properties only: on any other identifier the handler does the same
    under every value of [properties]. *)
Theorem properties_only_for_members
    (properties properties' : string) (h : Tree) (node : nat) (nd : Node)
    (nm : string) (p : Node) (st : Traversal) :
  h !! node = Some nd → name nd = Some nm →
  deref h (parent nd) = Some p →
  type p ≠ "MemberExpression" → type p ≠ "Property" →
  Identifier properties h node st = Identifier properties' h node st.
Proof.
  intros Hnode Hname Hparent Hm Hp.
  destruct (import_type_dec (type p)) as [Hi|Hi].
  - by rewrite !(Identifier_import h node nd nm p).
  - by rewrite !(Identifier_plain h node nd nm p).
Qed.

Lemma properties_only_for_members_witness :
  Identifier "never" import_plain 3 start = Identifier "always" import_plain 3 start.
Proof.
  apply (properties_only_for_members "never" "always" import_plain 3
           (identifier "my_export" 2) "my_export" (importSpecifier 1 3) start);
    first [reflexivity | discriminate].
Defined.

(** X12: the rule runs under "never" when the option is "never", and under
    "always" for any other value of the option and without one. *)
Theorem create_mode (option0 : option string) :
  create option0 =
  Identifier (if decide (option0 = Some "never") then "never" else "always").
Proof.
  unfold create.
  destruct (properties_of_cases option0) as [[-> ->]|[-> Hne]].
  - by rewrite decide_True.
  - by rewrite decide_False.
Qed.
